(** * Password generator: generation, strength scoring and capped history

    A shallow embedding of the client-side generator of the repository
    (the component with [CHARSETS], [evaluateStrength],
    [generatePasswordFromOptions] and the [App] event handlers
    [addToHistory], [generatePassword], [toggleOption],
    [handleLengthChange], [copyToClipboard], [clearHistory]).

    Conventions of the embedding.
    - A JavaScript function body ends in a [completion]: every [return e]
      of the source is [Normal e]; a [throw] would be [Throw].
    - Strings are [string]; [s.length] is [String.length s], [s + t] is
      [append], [s[i]] is [string_index].
    - Numbers.  Clock readings and the values of [Math.random()] are finite
      doubles, hence rationals: they are kept in [Q] and their sums,
      products and roundings are taken exactly.  The entropy estimate goes
      through [Math.log2], which leaves the rationals: it is computed in
      [R], with [log2 x = ln x / ln 2].  In both cases the rounding error of
      IEEE-754 arithmetic is left out of the model.
    - The requested length is an integer ([Z]); [for (i = 0; i < length; i++)]
      then runs [Z.to_nat length] times.
    - The world outside the program (random source, clocks) is an explicit
      [Env] value handed to each event handler. *)

From Stdlib Require Import Bool List String Ascii ZArith QArith Qround.
From Stdlib Require Import DecimalString DecimalPos DecimalZ Reals Lra Lia.
From Stdlib Require Lqa.
Import ListNotations.

Local Open Scope string_scope.

(** ** Completions of JavaScript function bodies *)

Inductive completion (A : Type) : Type :=
| Normal (value : A)
| Throw (error : string).

Arguments Normal {A} value.
Arguments Throw {A} error.

Definition bind {A B : Type} (c : completion A) (k : A -> completion B)
  : completion B :=
  match c with
  | Normal a => k a
  | Throw e => Throw e
  end.

Notation "'let*' x ':=' c 'in' k" := (bind c (fun x => k))
  (at level 10, x name, c at level 100, k at level 200).

(** ** Options and the charset registry *)

Record Options : Type := mkOptions {
  upper : bool;
  lower : bool;
  numbers : bool;
  symbols : bool
}.

(** [keyof Options] *)
Inductive OptionKey : Type := Upper | Lower | Numbers | Symbols.

(** [options[key]] *)
Definition option_get (options : Options) (key : OptionKey) : bool :=
  match key with
  | Upper => upper options
  | Lower => lower options
  | Numbers => numbers options
  | Symbols => symbols options
  end.

(** [{ ...options, [key]: b }] *)
Definition option_set (options : Options) (key : OptionKey) (b : bool)
  : Options :=
  match key with
  | Upper => mkOptions b (lower options) (numbers options) (symbols options)
  | Lower => mkOptions (upper options) b (numbers options) (symbols options)
  | Numbers => mkOptions (upper options) (lower options) b (symbols options)
  | Symbols => mkOptions (upper options) (lower options) (numbers options) b
  end.

(** [CHARSETS.upper], [CHARSETS.lower], ... *)
Definition CHARSETS (key : OptionKey) : string :=
  match key with
  | Upper => "ABCDEFGHIJKLMNOPQRSTUVWXYZ"
  | Lower => "abcdefghijklmnopqrstuvwxyz"
  | Numbers => "0123456789"
  | Symbols => "!@#$%^&*()_+-=[]{}<>?"
  end.

(** ** Numbers *)

(** [Math.log2] *)
Definition log2 (x : R) : R := (ln x / ln 2)%R.

(** [Math.floor] on a rational. *)
Definition Math_floor (q : Q) : Z := Qfloor q.

(** [Math.round]: the nearest integer, halves going up. *)
Definition Math_round (q : Q) : Z := Qfloor (q + (1 # 2)).

(** A value of [Math.random()]: a number [0 <= value < 1]. *)
Definition in_unit_interval (q : Q) : bool :=
  Qle_bool 0 q && negb (Qle_bool 1 q).

Record UnitInterval : Type := mkUnit {
  value : Q;
  value_range : in_unit_interval value = true
}.

(** [n.toString()] for an integer-valued number. *)
Definition toString (n : Z) : string := NilZero.string_of_int (Z.to_int n).

(** ** Strings *)

(** [s[i]]: the character at index [i], [None] (undefined) out of range. *)
Definition string_index (s : string) (i : Z) : option ascii :=
  if (i <? 0)%Z then None else String.get (Z.to_nat i) s.

(** [result += v] where [v] is a character or undefined. *)
Definition append_indexed (result : string) (v : option ascii) : string :=
  match v with
  | Some c => result ++ String c EmptyString
  | None => result ++ "undefined"
  end.

(** The characters of a string. *)
Definition chars (s : string) : list ascii := list_ascii_of_string s.

(** [!s] for a string [s]. *)
Definition is_empty (s : string) : bool :=
  match s with
  | EmptyString => true
  | String _ _ => false
  end.

(** ** The environment of one event *)

Record Env : Type := mkEnv {
  random : nat -> UnitInterval;   (* the i-th call of Math.random() *)
  startTime : Q;                  (* performance.now() on entry *)
  endTime : Q;                    (* performance.now() after sampling *)
  Date_now : Z;                   (* Date.now() *)
  toLocaleTimeString : string     (* new Date().toLocaleTimeString() *)
}.

(** ** Strength evaluator *)

Definition evaluateStrength (pw : string) (poolSize : R) : string :=
  let entropy := (INR (String.length pw) * log2 poolSize)%R in
  if Rlt_dec entropy 40 then "Weak"
  else if Rlt_dec entropy 60 then "Medium"
  else "Strong".

(** ** Password generator *)

Module Generated.
Record t : Type := mk {
  password : string;
  strength : string;
  responseTime : Q
}.
End Generated.

(** Lines 36-41: the pool grows by each enabled charset in turn. *)
Definition build_pool (options : Options) : string :=
  let pool := "" in
  let pool := if upper options then pool ++ CHARSETS Upper else pool in
  let pool := if lower options then pool ++ CHARSETS Lower else pool in
  let pool := if numbers options then pool ++ CHARSETS Numbers else pool in
  let pool := if symbols options then pool ++ CHARSETS Symbols else pool in
  pool.

(** [pool[Math.floor(Math.random() * pool.length)]] for one draw. *)
Definition pick (pool : string) (u : UnitInterval) : option ascii :=
  string_index pool
    (Math_floor (value u * inject_Z (Z.of_nat (String.length pool)))).

(** The [for] loop: [n] iterations left, [i] draws made so far. *)
Fixpoint sample_loop (pool : string) (rnd : nat -> UnitInterval)
    (i n : nat) (result : string) : string :=
  match n with
  | O => result
  | S n' =>
      sample_loop pool rnd (S i) n' (append_indexed result (pick pool (rnd i)))
  end.

Definition generatePasswordFromOptions (length : Z) (options : Options)
    (env : Env) : completion Generated.t :=
  let pool := build_pool options in
  if is_empty pool then
    Normal (Generated.mk "" "" 0)
  else
    let result := sample_loop pool (random env) 0 (Z.to_nat length) "" in
    let responseTime := (endTime env - startTime env)%Q in
    Normal (Generated.mk result
              (evaluateStrength result (INR (String.length pool)))
              responseTime).

(** ** History and the application state *)

Module HistoryItem.
Record t : Type := mk {
  id : string;
  password : string;
  strength : string;
  timestamp : string;
  responseTime : Q
}.
End HistoryItem.

Module State.
Record t : Type := mk {
  length : Z;
  options : Options;
  password : string;
  strength : string;
  copied : bool;
  history : list HistoryItem.t;
  showHistory : bool
}.

Definition setPassword (pwd : string) (st : t) : t :=
  mk (length st) (options st) pwd (strength st) (copied st) (history st)
     (showHistory st).
Definition setStrength (str : string) (st : t) : t :=
  mk (length st) (options st) (password st) str (copied st) (history st)
     (showHistory st).
Definition setHistory (f : list HistoryItem.t -> list HistoryItem.t)
    (st : t) : t :=
  mk (length st) (options st) (password st) (strength st) (copied st)
     (f (history st)) (showHistory st).
Definition setOptions (o : Options) (st : t) : t :=
  mk (length st) o (password st) (strength st) (copied st) (history st)
     (showHistory st).
Definition setLength (n : Z) (st : t) : t :=
  mk n (options st) (password st) (strength st) (copied st) (history st)
     (showHistory st).

(** The [useState] initial values. *)
Definition initial : t :=
  mk 12 (mkOptions true true true false) "" "" false [] false.
End State.

(** The item built by [addToHistory]. *)
Definition newItem (pwd str : string) (responseTime : Q) (env : Env)
  : HistoryItem.t :=
  HistoryItem.mk (toString (Date_now env)) pwd str (toLocaleTimeString env)
    (inject_Z (Math_round (responseTime * 100)) / 100)%Q.

(** [[newItem, ...prev].slice(0, 20)] *)
Definition addToHistory (pwd str : string) (responseTime : Q) (env : Env)
    (st : State.t) : State.t :=
  State.setHistory
    (fun prev => firstn 20 (newItem pwd str responseTime env :: prev)) st.

Definition generatePassword (env : Env) (st : State.t)
  : completion State.t :=
  let* r := generatePasswordFromOptions (State.length st) (State.options st)
              env in
  let st := State.setPassword (Generated.password r) st in
  let st := State.setStrength (Generated.strength r) st in
  Normal (addToHistory (Generated.password r) (Generated.strength r)
            (Generated.responseTime r) env st).

Definition toggleOption (key : OptionKey) (env : Env) (st : State.t)
  : completion State.t :=
  let options := State.options st in
  let newOptions := option_set options key (negb (option_get options key)) in
  let len := State.length st in
  let st := State.setOptions newOptions st in
  let* r := generatePasswordFromOptions len newOptions env in
  let st := State.setPassword (Generated.password r) st in
  let st := State.setStrength (Generated.strength r) st in
  Normal (addToHistory (Generated.password r) (Generated.strength r)
            (Generated.responseTime r) env st).

Definition handleLengthChange (newLength : Z) (env : Env) (st : State.t)
  : completion State.t :=
  let options := State.options st in
  let st := State.setLength newLength st in
  let* r := generatePasswordFromOptions newLength options env in
  let st := State.setPassword (Generated.password r) st in
  let st := State.setStrength (Generated.strength r) st in
  Normal (addToHistory (Generated.password r) (Generated.strength r)
            (Generated.responseTime r) env st).

Definition clearHistory (st : State.t) : State.t :=
  State.setHistory (fun _ => []) st.

(** The mount effect: [useEffect(() => { ... }, [])]. *)
Definition mountEffect (env : Env) (st : State.t) : completion State.t :=
  let* r := generatePasswordFromOptions (State.length st) (State.options st)
              env in
  let st := State.setPassword (Generated.password r) st in
  let st := State.setStrength (Generated.strength r) st in
  Normal (addToHistory (Generated.password r) (Generated.strength r)
            (Generated.responseTime r) env st).

(** The events that generate a password, and their handlers. *)
Inductive Generation : Type :=
| Mounted
| Regenerated
| Toggled (key : OptionKey)
| LengthChanged (newLength : Z).

Definition handle (g : Generation) (env : Env) (st : State.t)
  : completion State.t :=
  match g with
  | Mounted => mountEffect env st
  | Regenerated => generatePassword env st
  | Toggled key => toggleOption key env st
  | LengthChanged newLength => handleLengthChange newLength env st
  end.

(** A run of generation events, each with its environment. *)
Fixpoint generations (events : list (Generation * Env)) (st : State.t)
  : completion State.t :=
  match events with
  | [] => Normal st
  | (g, env) :: events' =>
      let* st' := handle g env st in generations events' st'
  end.

(** ** Reference definitions used by the statements *)

(** The three strength labels. *)
Definition StrengthLabel (s : string) : Prop :=
  s = "Weak" \/ s = "Medium" \/ s = "Strong".

(** The entropy estimate [length(pw) * log2(poolSize)]. *)
Definition entropy (pw : string) (poolSize : R) : R :=
  (INR (String.length pw) * log2 poolSize)%R.

(** The label decided in integer arithmetic: [len * log2 p < k] is
    [p ^ len < 2 ^ k] for a pool of [p >= 1] characters. *)
Definition evaluateStrength_exact (len poolSize : nat) : string :=
  let combinations := (Z.of_nat poolSize ^ Z.of_nat len)%Z in
  if (combinations <? 2 ^ 40)%Z then "Weak"
  else if (combinations <? 2 ^ 60)%Z then "Medium"
  else "Strong".

(** The pool as the data model words it: the charsets of the enabled
    options, concatenated in the order upper, lower, numbers, symbols. *)
Definition canonical_order : list OptionKey := [Upper; Lower; Numbers; Symbols].

Definition CharsetPool (options : Options) : string :=
  String.concat ""
    (map CHARSETS (filter (option_get options) canonical_order)).

(** No option enabled. *)
Definition all_false (options : Options) : Prop :=
  upper options = false /\ lower options = false /\
  numbers options = false /\ symbols options = false.

(** The length and the options that a generation event asks for. *)
Definition requested_length (g : Generation) (st : State.t) : Z :=
  match g with
  | LengthChanged newLength => newLength
  | _ => State.length st
  end.

Definition requested_options (g : Generation) (st : State.t) : Options :=
  match g with
  | Toggled key =>
      option_set (State.options st) key
        (negb (option_get (State.options st) key))
  | _ => State.options st
  end.

(** The item that a generation event adds to the history. *)
Definition generatedItem (g : Generation) (env : Env) (st : State.t)
  : completion HistoryItem.t :=
  let* r := generatePasswordFromOptions (requested_length g st)
              (requested_options g st) env in
  Normal (newItem (Generated.password r) (Generated.strength r)
            (Generated.responseTime r) env).

(** The items created along a run of generation events, oldest first. *)
Fixpoint generatedItems (events : list (Generation * Env)) (st : State.t)
  : list (completion HistoryItem.t) :=
  match events with
  | [] => []
  | (g, env) :: events' =>
      generatedItem g env st ::
      match handle g env st with
      | Normal st' => generatedItems events' st'
      | Throw _ => []
      end
  end.

(** A concrete environment: a table of draws, then zeros. *)
Definition sample_draws : list UnitInterval :=
  [ mkUnit (0 # 1) eq_refl; mkUnit (1 # 2) eq_refl; mkUnit (9 # 10) eq_refl;
    mkUnit (1 # 3) eq_refl; mkUnit (61 # 62) eq_refl; mkUnit (5 # 7) eq_refl ].

Definition sample_env : Env :=
  mkEnv (fun i => nth i sample_draws (mkUnit (0 # 1) eq_refl))
        (1 # 1) (3 # 2) 1700000000000 "10:15:00".

Definition no_options : Options := mkOptions false false false false.

(** Twenty-one generation events: the mount, then regenerations, option
    toggles and length changes in turn. *)
Definition sample_events : list (Generation * Env) :=
  (Mounted, sample_env) ::
  List.concat (repeat [ (Regenerated, sample_env); (Toggled Symbols, sample_env);
                   (LengthChanged 8, sample_env); (Toggled Upper, sample_env) ]
            5).

(** ** The remaining handlers of the component *)

Definition setCopied (b : bool) (st : State.t) : State.t :=
  State.mk (State.length st) (State.options st) (State.password st)
    (State.strength st) b (State.history st) (State.showHistory st).

Definition setShowHistory (b : bool) (st : State.t) : State.t :=
  State.mk (State.length st) (State.options st) (State.password st)
    (State.strength st) (State.copied st) (State.history st) b.

(** [copyToClipboard(text)], as the state it leaves once it has settled:
    [written] tells whether [navigator.clipboard.writeText] resolved; the
    statements after the [await] run only then. *)
Definition copyToClipboard (text : string) (written : bool) (st : State.t)
  : State.t :=
  if written then setCopied true st else st.

(** The callback of [setTimeout(() => setCopied(false), 2000)]. *)
Definition copiedTimeout (st : State.t) : State.t := setCopied false st.

(** [onClick={() => setShowHistory(!showHistory)}] *)
Definition toggleHistoryPanel (st : State.t) : State.t :=
  setShowHistory (negb (State.showHistory st)) st.

(** Everything that can happen to the component. *)
Inductive Event : Type :=
| Generates (g : Generation) (env : Env)
| ClearsHistory
| TogglesHistoryPanel
| Copies (text : string) (written : bool)
| CopyTimerFires.

Definition dispatch (e : Event) (st : State.t) : completion State.t :=
  match e with
  | Generates g env => handle g env st
  | ClearsHistory => Normal (clearHistory st)
  | TogglesHistoryPanel => Normal (toggleHistoryPanel st)
  | Copies text written => Normal (copyToClipboard text written st)
  | CopyTimerFires => Normal (copiedTimeout st)
  end.

Fixpoint run (events : list Event) (st : State.t) : completion State.t :=
  match events with
  | [] => Normal st
  | e :: events' => let* st' := dispatch e st in run events' st'
  end.


(** ** Further reference definitions *)

(** The order of the labels. *)
Definition strength_rank (label : string) : nat :=
  if String.eqb label "Strong" then 2
  else if String.eqb label "Medium" then 1
  else 0.

(** No character occurs twice. *)
Fixpoint distinct (l : list ascii) : bool :=
  match l with
  | [] => true
  | c :: l' => negb (existsb (Ascii.eqb c) l') && distinct l'
  end.


(** The newest history item, if any, is the displayed password. *)
Definition history_head_agrees (st : State.t) : Prop :=
  match State.history st with
  | [] => True
  | item :: _ =>
      HistoryItem.password item = State.password st /\
      HistoryItem.strength item = State.strength st
  end.

(** All four charsets together. *)
Definition all_options : Options := mkOptions true true true true.

(** A history item is either the record of a failed generation or a
    labelled password over the 83 characters of the charsets. *)
Definition item_well_formed (item : HistoryItem.t) : Prop :=
  (HistoryItem.password item = "" /\ HistoryItem.strength item = "" /\
   (HistoryItem.responseTime item == 0)%Q) \/
  (StrengthLabel (HistoryItem.strength item) /\
   forall c, In c (chars (HistoryItem.password item)) ->
             In c (chars (build_pool all_options))).

(** What every event keeps. *)
Definition component_invariant (st : State.t) : Prop :=
  (List.length (State.history st) <= 20)%nat /\
  history_head_agrees st /\
  Forall item_well_formed (State.history st).

(** * Properties *)

(** ** Strength evaluator *)

Section Strength.

Local Open Scope R_scope.

Lemma ln2_pos : 0 < ln 2.
Proof. rewrite <- ln_1. apply ln_increasing; lra. Qed.

Lemma log2_1 : log2 1 = 0.
Proof. unfold log2. rewrite ln_1. unfold Rdiv. apply Rmult_0_l. Qed.

Lemma log2_pow2 (k : nat) : log2 (2 ^ k) = INR k.
Proof.
  unfold log2. rewrite ln_pow by lra.
  field. apply Rgt_not_eq, ln2_pos.
Qed.

(** The comparison of the entropy estimate with an integer threshold is a
    comparison of [p ^ n] with a power of two. *)
Lemma entropy_lt_pow (n k : nat) (p : R) :
  0 < p -> (INR n * log2 p < INR k <-> p ^ n < 2 ^ k).
Proof.
  intros Hp. pose proof ln2_pos as H2.
  assert (Heq : INR n * log2 p = ln (p ^ n) / ln 2).
  { unfold log2. rewrite ln_pow by assumption. field. lra. }
  assert (Hk : INR k = ln (2 ^ k) / ln 2).
  { rewrite ln_pow by lra. field. lra. }
  rewrite Heq, Hk. split; intros H.
  - apply ln_lt_inv; try (apply pow_lt; lra).
    apply Rmult_lt_reg_r with (/ ln 2); [apply Rinv_0_lt_compat, H2|exact H].
  - apply Rmult_lt_compat_r; [apply Rinv_0_lt_compat, H2|].
    apply ln_increasing; [apply pow_lt; lra|exact H].
Qed.

Lemma pow_nat_Z (p n : nat) : INR p ^ n = IZR (Z.of_nat p ^ Z.of_nat n).
Proof. rewrite INR_IZR_INZ. apply pow_IZR. Qed.

Lemma pow2_Z (k : nat) : 2 ^ k = IZR (2 ^ Z.of_nat k).
Proof. apply (pow_IZR 2 k). Qed.

Lemma entropy_lt_Z (pw : string) (p k : nat) :
  (1 <= p)%nat ->
  (entropy pw (INR p) < INR k <->
   (Z.of_nat p ^ Z.of_nat (String.length pw) < 2 ^ Z.of_nat k)%Z).
Proof.
  intros Hp. unfold entropy.
  rewrite entropy_lt_pow by (apply lt_0_INR; lia).
  rewrite pow_nat_Z, pow2_Z. split; [apply lt_IZR | apply IZR_lt].
Qed.

Lemma INR_40 : INR 40 = 40.
Proof. rewrite INR_IZR_INZ. reflexivity. Qed.

Lemma INR_60 : INR 60 = 60.
Proof. rewrite INR_IZR_INZ. reflexivity. Qed.

(** The evaluator agrees with its integer form on every pool size that a
    string length can take. *)
Lemma evaluateStrength_exact_spec (pw : string) (p : nat) :
  (1 <= p)%nat ->
  evaluateStrength pw (INR p) = evaluateStrength_exact (String.length pw) p.
Proof.
  intros Hp. unfold evaluateStrength, evaluateStrength_exact.
  fold (entropy pw (INR p)).
  pose proof (entropy_lt_Z pw p 40 Hp) as H40.
  pose proof (entropy_lt_Z pw p 60 Hp) as H60.
  rewrite INR_40 in H40. rewrite INR_60 in H60.
  change (Z.of_nat 40) with 40%Z in H40.
  change (Z.of_nat 60) with 60%Z in H60.
  cbv zeta.
  destruct (Rlt_dec (entropy pw (INR p)) 40) as [L|L];
    destruct (Z.ltb_spec (Z.of_nat p ^ Z.of_nat (String.length pw)) (2 ^ 40))
      as [L'|L']; try reflexivity;
    try (exfalso; apply H40 in L; lia);
    try (exfalso; apply L, H40; exact L').
  destruct (Rlt_dec (entropy pw (INR p)) 60) as [M|M];
    destruct (Z.ltb_spec (Z.of_nat p ^ Z.of_nat (String.length pw)) (2 ^ 60))
      as [M'|M']; try reflexivity.
  - exfalso. apply H60 in M. lia.
  - exfalso. apply M, H60. exact M'.
Qed.

Lemma entropy_le_pow (n k : nat) (p : R) :
  0 < p -> (INR k <= INR n * log2 p <-> 2 ^ k <= p ^ n).
Proof.
  intros Hp. pose proof (entropy_lt_pow n k p Hp) as H.
  split; intros L.
  - apply Rnot_lt_le. intros C. apply H in C. lra.
  - apply Rnot_lt_le. intros C. apply H in C. lra.
Qed.

(** Entropy exactly on a threshold: eight characters over a pool of 32,
    ten characters over a pool of 64. *)
Lemma entropy_8_of_32 : entropy "abcdefgh" 32 = 40.
Proof.
  unfold entropy. replace 32 with (2 ^ 5) by lra.
  rewrite log2_pow2. simpl. lra.
Qed.

Lemma entropy_10_of_64 : entropy "abcdefghij" 64 = 60.
Proof.
  unfold entropy. replace 64 with (2 ^ 6) by lra.
  rewrite log2_pow2. simpl. lra.
Qed.

(** C4. For every password and every pool size of at least 1, with [E] the
    entropy estimate [length(pw) * log2(poolSize)]: the evaluator answers
    Weak exactly when [E < 40], Medium exactly when [40 <= E < 60] and
    Strong exactly when [60 <= E]; an entropy of exactly 40 is Medium and
    one of exactly 60 is Strong. *)
Theorem evaluateStrength_thresholds (pw : string) (poolSize : R) :
  1 <= poolSize ->
  (evaluateStrength pw poolSize = "Weak" <-> entropy pw poolSize < 40) /\
  (evaluateStrength pw poolSize = "Medium" <->
     40 <= entropy pw poolSize < 60) /\
  (evaluateStrength pw poolSize = "Strong" <-> 60 <= entropy pw poolSize) /\
  (entropy pw poolSize = 40 -> evaluateStrength pw poolSize = "Medium") /\
  (entropy pw poolSize = 60 -> evaluateStrength pw poolSize = "Strong").
Proof.
  intros _. unfold evaluateStrength. fold (entropy pw poolSize).
  cbv zeta.
  destruct (Rlt_dec (entropy pw poolSize) 40) as [L|L];
    [|destruct (Rlt_dec (entropy pw poolSize) 60) as [M|M]];
    repeat split; intros; try reflexivity; try discriminate; try lra.
Qed.

Lemma evaluateStrength_thresholds_witness :
  1 <= 32 /\
  evaluateStrength "abcdefgh" 32 = "Medium" /\
  evaluateStrength "abcdefghij" 64 = "Strong".
Proof.
  assert (H : 1 <= 32) by lra.
  assert (H' : 1 <= 64) by lra.
  split; [exact H|]. split.
  - apply (evaluateStrength_thresholds "abcdefgh" 32 H).
    exact entropy_8_of_32.
  - apply (evaluateStrength_thresholds "abcdefghij" 64 H').
    exact entropy_10_of_64.
Defined.

(** C5. Two passwords of the same length get the same label for the same
    pool size: the label depends on the pair (length, poolSize) only. *)
Theorem evaluateStrength_length_only (pw1 pw2 : string) (poolSize : R) :
  String.length pw1 = String.length pw2 ->
  evaluateStrength pw1 poolSize = evaluateStrength pw2 poolSize.
Proof.
  intros H. unfold evaluateStrength. rewrite H. reflexivity.
Qed.

Lemma evaluateStrength_length_only_witness :
  evaluateStrength "aaaa" 10 = evaluateStrength "9Zx?" 10.
Proof.
  apply (evaluateStrength_length_only "aaaa" "9Zx?" 10). reflexivity.
Defined.

(** C6. With a pool of one character the entropy estimate is
    [length * log2 1 = 0], so every password, however long, is Weak. *)
Theorem evaluateStrength_pool_of_one (pw : string) :
  entropy pw 1 = 0 /\ evaluateStrength pw 1 = "Weak".
Proof.
  assert (E : entropy pw 1 = 0).
  { unfold entropy. rewrite log2_1. apply Rmult_0_r. }
  split; [exact E|].
  unfold evaluateStrength. fold (entropy pw 1). rewrite E. cbv zeta.
  destruct (Rlt_dec 0 40) as [L|L]; [reflexivity | exfalso; lra].
Qed.

End Strength.

(** ** Password generator *)

Section Generator.

Lemma string_length_append (s t : string) :
  String.length (s ++ t) = (String.length s + String.length t)%nat.
Proof. induction s as [|c s IH]; simpl; [reflexivity | now rewrite IH]. Qed.

Lemma chars_append (s t : string) :
  chars (s ++ t) = (chars s ++ chars t)%list.
Proof.
  unfold chars. induction s as [|c s IH]; simpl;
    [reflexivity | now rewrite IH].
Qed.

Lemma string_get_in (s : string) (i : nat) :
  (i < String.length s)%nat ->
  exists c, String.get i s = Some c /\ In c (chars s).
Proof.
  revert i. induction s as [|a s IH]; intros i Hi; simpl in Hi; [lia|].
  destruct i as [|i]; simpl.
  - exists a. split; [reflexivity | now left].
  - destruct (IH i) as [c [Hc Hin]]; [lia|].
    exists c. split; [exact Hc | now right].
Qed.

Lemma is_empty_length (s : string) :
  is_empty s = false <-> (0 < String.length s)%nat.
Proof. destruct s; simpl; split; intros; try discriminate; lia. Qed.

Lemma unit_interval_bounds (u : UnitInterval) :
  (0 <= value u)%Q /\ (value u < 1)%Q.
Proof.
  destruct u as [v Hv]. simpl. unfold in_unit_interval in Hv.
  apply andb_true_iff in Hv. destruct Hv as [H0 H1].
  split.
  - now apply Qle_bool_iff.
  - apply Qnot_le_lt. intros C. apply Qle_bool_iff in C.
    rewrite C in H1. discriminate.
Qed.

(** [Math.floor(Math.random() * n)] is an index below [n]. *)
Lemma floor_index (u : UnitInterval) (n : nat) :
  (0 < n)%nat ->
  (0 <= Math_floor (value u * inject_Z (Z.of_nat n)) < Z.of_nat n)%Z.
Proof.
  intros Hn. destruct (unit_interval_bounds u) as [H0 H1].
  set (v := value u) in *. set (m := Z.of_nat n).
  assert (Hm : (0 < inject_Z m)%Q).
  { change (inject_Z 0 < inject_Z m)%Q. rewrite <- Zlt_Qlt. subst m. lia. }
  unfold Math_floor. split.
  - rewrite <- (Qfloor_Z 0). apply Qfloor_resp_le.
    apply Qmult_le_0_compat; [exact H0 | apply Qlt_le_weak, Hm].
  - rewrite Zlt_Qlt. apply Qle_lt_trans with (v * inject_Z m)%Q.
    + apply Qfloor_le.
    + rewrite <- (Qmult_1_l (inject_Z m)) at 2.
      apply Qmult_lt_compat_r; assumption.
Qed.

(** On a non-empty pool a draw is a character of the pool, never
    undefined. *)
Lemma pick_in_pool (pool : string) (u : UnitInterval) :
  is_empty pool = false ->
  exists c, pick pool u = Some c /\ In c (chars pool).
Proof.
  intros Hne. apply is_empty_length in Hne.
  pose proof (floor_index u (String.length pool) Hne) as [Hlo Hhi].
  unfold pick, string_index.
  destruct (Z.ltb_spec (Math_floor (value u *
              inject_Z (Z.of_nat (String.length pool)))) 0) as [C|_];
    [lia|].
  apply string_get_in. lia.
Qed.

(** The loop adds exactly one pool character per iteration. *)
Lemma sample_loop_spec (pool : string) (rnd : nat -> UnitInterval)
    (n i : nat) (result : string) :
  is_empty pool = false ->
  String.length (sample_loop pool rnd i n result)
    = (String.length result + n)%nat /\
  ((forall c, In c (chars result) -> In c (chars pool)) ->
   forall c, In c (chars (sample_loop pool rnd i n result)) ->
             In c (chars pool)).
Proof.
  intros Hne. revert i result.
  induction n as [|n IH]; intros i result; simpl.
  - split; [lia | auto].
  - destruct (pick_in_pool pool (rnd i) Hne) as [c [Hc Hin]].
    rewrite Hc. simpl.
    destruct (IH (S i) (result ++ String c EmptyString)) as [Hlen Hmem].
    split.
    + rewrite Hlen, string_length_append. simpl. lia.
    + intros Hres. apply Hmem. intros d Hd.
      rewrite chars_append in Hd. apply in_app_or in Hd.
      destruct Hd as [Hd|Hd]; [now apply Hres|].
      simpl in Hd. destruct Hd as [<-|[]]. exact Hin.
Qed.

(** The pool built by the generator is the canonical concatenation. *)
Lemma build_pool_canonical (options : Options) :
  build_pool options = CharsetPool options.
Proof. destruct options as [[] [] [] []]; reflexivity. Qed.

Lemma build_pool_empty (options : Options) :
  is_empty (build_pool options) = true <-> all_false options.
Proof.
  unfold all_false.
  destruct options as [[] [] [] []]; simpl; split; intros H;
    try discriminate; try reflexivity; try tauto;
    repeat match goal with H : _ /\ _ |- _ => destruct H end;
    discriminate.
Qed.

Lemma chars_concat (l : list string) (c : ascii) :
  In c (chars (String.concat "" l)) ->
  exists s, In s l /\ In c (chars s).
Proof.
  induction l as [|s l IH]; simpl; [intros []|].
  destruct l as [|t l].
  - intros H. exists s. split; [now left | exact H].
  - intros H. rewrite chars_append in H. apply in_app_or in H.
    destruct H as [H|H].
    + exists s. split; [now left | exact H].
    + destruct (IH H) as [s' [Hs' Hc]].
      exists s'. split; [now right | exact Hc].
Qed.

(** A pool character belongs to the charset of an enabled option. *)
Lemma pool_char_enabled (options : Options) (c : ascii) :
  In c (chars (build_pool options)) ->
  exists key, option_get options key = true /\ In c (chars (CHARSETS key)).
Proof.
  rewrite build_pool_canonical. unfold CharsetPool. intros H.
  apply chars_concat in H. destruct H as [s [Hs Hc]].
  apply in_map_iff in Hs. destruct Hs as [key [<- Hkey]].
  apply filter_In in Hkey. exists key. split; [apply Hkey | exact Hc].
Qed.

Lemma generate_all_false (length : Z) (options : Options) (env : Env) :
  all_false options ->
  generatePasswordFromOptions length options env
    = Normal (Generated.mk "" "" 0).
Proof.
  intros H. apply build_pool_empty in H.
  unfold generatePasswordFromOptions. now rewrite H.
Qed.

Lemma generate_enabled (length : Z) (options : Options) (env : Env) :
  is_empty (build_pool options) = false ->
  generatePasswordFromOptions length options env
    = let pool := build_pool options in
      let result := sample_loop pool (random env) 0 (Z.to_nat length) "" in
      Normal (Generated.mk result
                (evaluateStrength result (INR (String.length pool)))
                (endTime env - startTime env)).
Proof.
  intros H. unfold generatePasswordFromOptions. now rewrite H.
Qed.

Lemma enabled_pool_not_empty (options : Options) :
  (exists key, option_get options key = true) ->
  is_empty (build_pool options) = false.
Proof.
  intros [key Hkey].
  destruct (is_empty (build_pool options)) eqn:E; [|reflexivity].
  apply build_pool_empty in E. destruct E as [Hu [Hl [Hn Hs]]].
  destruct key; simpl in Hkey; congruence.
Qed.

(** C1, as the code has it. With all four flags false the generator
    raises no error: for every length and environment it returns normally,
    and the result it returns carries the empty string as its password. *)
Theorem generate_all_false_returns_empty (length : Z) (options : Options)
    (env : Env) :
  all_false options ->
  (exists r, generatePasswordFromOptions length options env = Normal r /\
             Generated.password r = "") /\
  (forall e, generatePasswordFromOptions length options env <> Throw e).
Proof.
  intros H. rewrite (generate_all_false length options env H). split.
  - eexists. split; reflexivity.
  - intros e. discriminate.
Qed.

Lemma generate_all_false_returns_empty_witness :
  (exists r, generatePasswordFromOptions 16 no_options sample_env = Normal r
             /\ Generated.password r = "") /\
  (forall e, generatePasswordFromOptions 16 no_options sample_env
             <> Throw e).
Proof.
  apply (generate_all_false_returns_empty 16 no_options sample_env).
  repeat split; reflexivity.
Defined.

(** C1, as stated, fails: with no option enabled and length 12 the
    generator does not fail with EmptyPoolError, it returns a normal
    result whose password is empty. *)
Lemma generate_all_false_is_not_an_error :
  all_false no_options /\
  generatePasswordFromOptions 12 no_options sample_env
    <> Throw "EmptyPoolError" /\
  generatePasswordFromOptions 12 no_options sample_env
    = Normal (Generated.mk "" "" 0).
Proof.
  split; [repeat split; reflexivity|].
  split; [discriminate | reflexivity].
Qed.

(** C2. For every length of at least 1 and every Options value with an
    enabled flag, the generator returns a password of exactly [length]
    characters, each of them a character of the pool, hence of the charset
    of some enabled option. *)
Theorem generate_length_and_membership (length : Z) (options : Options)
    (env : Env) :
  (1 <= length)%Z ->
  (exists key, option_get options key = true) ->
  exists r,
    generatePasswordFromOptions length options env = Normal r /\
    Z.of_nat (String.length (Generated.password r)) = length /\
    forall c, In c (chars (Generated.password r)) ->
      In c (chars (build_pool options)) /\
      exists key, option_get options key = true /\
                  In c (chars (CHARSETS key)).
Proof.
  intros Hlen Hen. apply enabled_pool_not_empty in Hen.
  rewrite (generate_enabled length options env Hen). cbv zeta.
  eexists. split; [reflexivity|]. simpl.
  destruct (sample_loop_spec (build_pool options) (random env)
              (Z.to_nat length) 0 "" Hen) as [Hl Hm].
  split.
  - rewrite Hl. simpl. lia.
  - intros c Hc.
    assert (Hp : In c (chars (build_pool options))).
    { apply Hm; [intros d []|exact Hc]. }
    split; [exact Hp | now apply pool_char_enabled].
Qed.

Lemma generate_length_and_membership_witness :
  exists r,
    generatePasswordFromOptions 12 (State.options State.initial) sample_env
      = Normal r /\
    Z.of_nat (String.length (Generated.password r)) = 12%Z /\
    forall c, In c (chars (Generated.password r)) ->
      In c (chars (build_pool (State.options State.initial))) /\
      exists key, option_get (State.options State.initial) key = true /\
                  In c (chars (CHARSETS key)).
Proof.
  apply (generate_length_and_membership 12 (State.options State.initial)
           sample_env).
  - lia.
  - exists Upper. reflexivity.
Defined.

(** The size of the canonical pool: the sizes of the enabled charsets
    added up, nothing removed. *)
Lemma CharsetPool_length (options : Options) :
  String.length (CharsetPool options)
    = list_sum (map (fun key => String.length (CHARSETS key))
                    (filter (option_get options) canonical_order)).
Proof. destruct options as [[] [] [] []]; reflexivity. Qed.

(** C3. For every Options value the pool the generator builds is the
    concatenation, duplicates kept, of the charsets of the enabled options
    in the order upper, lower, numbers, symbols; and the pool size handed
    to the strength evaluator is the length of that concatenation. *)
Theorem generate_uses_canonical_pool (length : Z) (options : Options)
    (env : Env) :
  build_pool options = CharsetPool options /\
  String.length (build_pool options)
    = list_sum (map (fun key => String.length (CHARSETS key))
                    (filter (option_get options) canonical_order)) /\
  generatePasswordFromOptions length options env
    = if is_empty (CharsetPool options) then Normal (Generated.mk "" "" 0)
      else
        let pw := sample_loop (CharsetPool options) (random env) 0
                    (Z.to_nat length) "" in
        Normal (Generated.mk pw
                  (evaluateStrength pw
                     (INR (String.length (CharsetPool options))))
                  (endTime env - startTime env)).
Proof.
  split; [apply build_pool_canonical|].
  split; [rewrite build_pool_canonical; apply CharsetPool_length|].
  unfold generatePasswordFromOptions.
  rewrite build_pool_canonical. reflexivity.
Qed.

(** C9. With all options false the result has the empty string as its
    strength, which is none of Weak, Medium, Strong, and a response time
    of 0 whatever the clocks read. *)
Theorem generate_all_false_strength_and_time (length : Z)
    (options : Options) (env : Env) :
  all_false options ->
  exists r,
    generatePasswordFromOptions length options env = Normal r /\
    Generated.strength r = "" /\
    ~ StrengthLabel (Generated.strength r) /\
    Generated.responseTime r = 0%Q.
Proof.
  intros H. rewrite (generate_all_false length options env H).
  eexists. split; [reflexivity|]. simpl.
  split; [reflexivity|]. split; [|reflexivity].
  intros [C|[C|C]]; discriminate.
Qed.

Lemma generate_all_false_strength_and_time_witness :
  exists r,
    generatePasswordFromOptions 12 no_options sample_env = Normal r /\
    Generated.strength r = "" /\
    ~ StrengthLabel (Generated.strength r) /\
    Generated.responseTime r = 0%Q.
Proof.
  apply (generate_all_false_strength_and_time 12 no_options sample_env).
  repeat split; reflexivity.
Defined.

End Generator.

(** ** History *)

Section History.

Lemma generate_total (length : Z) (options : Options) (env : Env) :
  exists r, generatePasswordFromOptions length options env = Normal r.
Proof.
  unfold generatePasswordFromOptions.
  destruct (is_empty (build_pool options)); eexists; reflexivity.
Qed.

Lemma firstn_app_firstn {A : Type} (n : nat) (l m : list A) :
  firstn n (l ++ firstn n m)%list = firstn n (l ++ m)%list.
Proof.
  rewrite !firstn_app, firstn_firstn.
  replace (Nat.min (n - List.length l) n) with (n - List.length l)%nat
    by lia.
  reflexivity.
Qed.

Lemma firstn_rev_evicts_oldest {A : Type} (x : A) (l : list A) (n : nat) :
  List.length l = n ->
  firstn n (rev (x :: l)) = rev l.
Proof.
  intros H. simpl. rewrite firstn_app, length_rev, H, Nat.sub_diag.
  simpl. rewrite app_nil_r. apply firstn_all2. rewrite length_rev. lia.
Qed.

(** [addToHistory] touches the history only. *)
Lemma addToHistory_history (pwd str : string) (rt : Q) (env : Env)
    (st : State.t) :
  State.history (addToHistory pwd str rt env st)
    = firstn 20 (newItem pwd str rt env :: State.history st).
Proof. reflexivity. Qed.

(** One generation event: the generator is called with the requested
    length and options, and its result is put in front of the history. *)
Lemma handle_step (g : Generation) (env : Env) (st : State.t) :
  exists r st',
    generatePasswordFromOptions (requested_length g st)
      (requested_options g st) env = Normal r /\
    handle g env st = Normal st' /\
    State.history st'
      = firstn 20 (newItem (Generated.password r) (Generated.strength r)
                     (Generated.responseTime r) env :: State.history st).
Proof.
  destruct (generate_total (requested_length g st)
              (requested_options g st) env) as [r Hr].
  destruct g; simpl in Hr; exists r; eexists; (split; [exact Hr|]);
    simpl handle;
    unfold mountEffect, generatePassword, toggleOption, handleLengthChange;
    cbv zeta; simpl State.length; simpl State.options;
    rewrite Hr; split; reflexivity.
Qed.

(** A run of generations from a history within the cap: the history is
    the created items, newest first, in front of the old history, cut at
    20. *)
Lemma generations_history (events : list (Generation * Env))
    (st : State.t) :
  (List.length (State.history st) <= 20)%nat ->
  exists st' items,
    generations events st = Normal st' /\
    generatedItems events st = map Normal items /\
    List.length items = List.length events /\
    State.history st' = firstn 20 (rev items ++ State.history st)%list.
Proof.
  revert st. induction events as [|[g env] events IH]; intros st Hcap.
  - exists st, []. do 3 (split; [reflexivity|]).
    change (rev [] ++ State.history st)%list with (State.history st).
    symmetry. apply firstn_all2. exact Hcap.
  - destruct (handle_step g env st) as [r [st1 [Hr [Hst1 Hh1]]]].
    destruct (IH st1) as [st2 [items [Hrun [Hitems [Hlen Hh2]]]]].
    { rewrite Hh1. rewrite length_firstn. lia. }
    exists st2.
    exists (newItem (Generated.password r) (Generated.strength r)
              (Generated.responseTime r) env :: items).
    simpl generations. simpl generatedItems. unfold generatedItem.
    rewrite Hst1, Hr. simpl bind. rewrite Hitems.
    split; [exact Hrun|]. split; [reflexivity|].
    split; [simpl; now rewrite Hlen|].
    rewrite Hh2, Hh1, firstn_app_firstn. simpl rev.
    rewrite <- app_assoc. reflexivity.
Qed.

(** C7. The history is capped at 20 items, newest first: adding an item
    to any history gives the new item in front of the old ones, cut to 20
    elements; so 21 generations from an empty history leave exactly 20
    items, the latest first, without the first one created. *)
Theorem history_capped_newest_first (events : list (Generation * Env))
    (st : State.t) :
  List.length events = 21%nat ->
  State.history st = [] ->
  (forall pwd str rt env st0,
      State.history (addToHistory pwd str rt env st0)
        = firstn 20 (newItem pwd str rt env :: State.history st0) /\
      State.history (addToHistory pwd str rt env st0)
        = newItem pwd str rt env :: firstn 19 (State.history st0) /\
      (List.length (State.history (addToHistory pwd str rt env st0))
         <= 20)%nat) /\
  exists st' oldest items,
    generations events st = Normal st' /\
    generatedItems events st = map Normal (oldest :: items) /\
    List.length (State.history st') = 20%nat /\
    State.history st' = rev items.
Proof.
  intros Hn Hempty. split.
  - intros pwd str rt env st0. rewrite addToHistory_history.
    split; [reflexivity|]. split; [reflexivity|].
    rewrite length_firstn. lia.
  - destruct (generations_history events st)
      as [st' [items [Hrun [Hitems [Hlen Hh]]]]].
    { rewrite Hempty. simpl. lia. }
    rewrite Hn in Hlen. rewrite Hempty, app_nil_r in Hh.
    destruct items as [|oldest items]; [discriminate|].
    simpl in Hlen. injection Hlen as Hlen.
    exists st', oldest, items.
    rewrite (firstn_rev_evicts_oldest oldest items 20 Hlen) in Hh.
    repeat split; try assumption.
    rewrite Hh, length_rev. exact Hlen.
Qed.

Lemma history_capped_newest_first_witness :
  exists st' oldest items,
    generations sample_events State.initial = Normal st' /\
    generatedItems sample_events State.initial
      = map Normal (oldest :: items) /\
    List.length (State.history st') = 20%nat /\
    State.history st' = rev items.
Proof.
  apply (history_capped_newest_first sample_events State.initial);
    reflexivity.
Defined.

(** C10. Every generation event, whichever handler runs it, adds exactly
    one item at the front of the history; also when the pool is empty:
    the event then records an item whose password and strength are empty
    strings. *)
Theorem every_generation_is_recorded (g : Generation) (env : Env)
    (st : State.t) :
  (exists r st',
      generatePasswordFromOptions (requested_length g st)
        (requested_options g st) env = Normal r /\
      handle g env st = Normal st' /\
      State.history st'
        = newItem (Generated.password r) (Generated.strength r)
            (Generated.responseTime r) env
          :: firstn 19 (State.history st)) /\
  (all_false (requested_options g st) ->
   exists st' item,
      handle g env st = Normal st' /\
      State.history st' = item :: firstn 19 (State.history st) /\
      HistoryItem.password item = "" /\ HistoryItem.strength item = "").
Proof.
  destruct (handle_step g env st) as [r [st' [Hr [Hst Hh]]]].
  split.
  - exists r, st'. repeat split; assumption.
  - intros Hf.
    rewrite (generate_all_false _ _ env Hf) in Hr. injection Hr as <-.
    exists st'. eexists. split; [exact Hst|].
    split; [exact Hh|]. split; reflexivity.
Qed.

(** Only upper-case letters enabled; switching them off empties the pool,
    and the event is recorded all the same. *)
Lemma every_generation_is_recorded_witness :
  exists st' item,
    toggleOption Upper sample_env
      (State.setOptions (mkOptions true false false false) State.initial)
      = Normal st' /\
    State.history st' = [item] /\
    HistoryItem.password item = "" /\ HistoryItem.strength item = "".
Proof.
  apply (every_generation_is_recorded (Toggled Upper) sample_env
           (State.setOptions (mkOptions true false false false)
              State.initial)).
  repeat split; reflexivity.
Defined.

End History.

(** ** Worked examples *)

Section WorkedExamples.

Local Open Scope R_scope.

(** Bounds on a multiple of the entropy estimate from two integer
    comparisons. *)
Lemma scaled_entropy_bounds (pw : string) (p s lo hi : nat) :
  (1 <= p)%nat ->
  (2 ^ Z.of_nat lo <=? Z.of_nat p ^ Z.of_nat (s * String.length pw))%Z
    = true ->
  (Z.of_nat p ^ Z.of_nat (s * String.length pw) <? 2 ^ Z.of_nat hi)%Z
    = true ->
  INR lo <= INR s * entropy pw (INR p) < INR hi.
Proof.
  intros Hp Hlo Hhi. apply Z.leb_le in Hlo. apply Z.ltb_lt in Hhi.
  assert (Hpos : 0 < INR p) by (apply lt_0_INR; lia).
  unfold entropy.
  replace (INR s * (INR (String.length pw) * log2 (INR p)))
    with (INR (s * String.length pw) * log2 (INR p))
    by (rewrite mult_INR; ring).
  split.
  - apply entropy_le_pow; [exact Hpos|].
    rewrite pow_nat_Z, pow2_Z. now apply IZR_le.
  - apply entropy_lt_pow; [exact Hpos|].
    rewrite pow_nat_Z, pow2_Z. now apply IZR_lt.
Qed.

Lemma entropy_12_of_62 (pw : string) :
  String.length pw = 12%nat -> Rabs (entropy pw 62 - 714 / 10) < 1 / 10.
Proof.
  intros Hlen.
  destruct (scaled_entropy_bounds pw 62 10 714 715) as [Hlo Hhi];
    [lia | rewrite Hlen; vm_compute; reflexivity
         | rewrite Hlen; vm_compute; reflexivity |].
  rewrite !INR_IZR_INZ in Hlo, Hhi. simpl Z.of_nat in Hlo, Hhi.
  apply Rabs_def1; lra.
Qed.

Lemma entropy_4_of_10 (pw : string) :
  String.length pw = 4%nat -> Rabs (entropy pw 10 - 133 / 10) < 1 / 10.
Proof.
  intros Hlen.
  destruct (scaled_entropy_bounds pw 10 100 1328 1329) as [Hlo Hhi];
    [lia | rewrite Hlen; vm_compute; reflexivity
         | rewrite Hlen; vm_compute; reflexivity |].
  rewrite !INR_IZR_INZ in Hlo, Hhi. simpl Z.of_nat in Hlo, Hhi.
  apply Rabs_def1; lra.
Qed.

(** A generation over an enabled pool, with its label computed in integer
    arithmetic. *)
Lemma generate_exact (length : Z) (options : Options) (env : Env) :
  is_empty (build_pool options) = false ->
  exists r,
    generatePasswordFromOptions length options env = Normal r /\
    String.length (Generated.password r) = Z.to_nat length /\
    Generated.strength r
      = evaluateStrength_exact (Z.to_nat length)
          (String.length (build_pool options)).
Proof.
  intros Hne. rewrite (generate_enabled length options env Hne). cbv zeta.
  eexists. split; [reflexivity|]. simpl Generated.password.
  simpl Generated.strength.
  destruct (sample_loop_spec (build_pool options) (random env)
              (Z.to_nat length) 0 "" Hne) as [Hl _].
  simpl in Hl. split; [exact Hl|].
  rewrite evaluateStrength_exact_spec
    by (apply is_empty_length in Hne; lia).
  now rewrite Hl.
Qed.

(** C8. The two worked examples. Length 12 with upper, lower and numbers
    enabled: a pool of 62 characters, an entropy of 12 * log2 62, within
    0.1 of 71.4, and the label Strong. Length 4 with numbers only: a pool
    of 10 characters, an entropy of 4 * log2 10, within 0.1 of 13.3, and
    the label Weak. *)
Theorem worked_examples (env : Env) :
  (String.length (build_pool (mkOptions true true true false)) = 62%nat /\
   exists r,
     generatePasswordFromOptions 12 (mkOptions true true true false) env
       = Normal r /\
     Rabs (entropy (Generated.password r) 62 - 714 / 10) < 1 / 10 /\
     Generated.strength r = "Strong") /\
  (String.length (build_pool (mkOptions false false true false)) = 10%nat /\
   exists r,
     generatePasswordFromOptions 4 (mkOptions false false true false) env
       = Normal r /\
     Rabs (entropy (Generated.password r) 10 - 133 / 10) < 1 / 10 /\
     Generated.strength r = "Weak").
Proof.
  split; (split; [reflexivity|]).
  - destruct (generate_exact 12 (mkOptions true true true false) env)
      as [r [Hr [Hl Hs]]]; [reflexivity|].
    exists r. split; [exact Hr|]. split.
    + apply entropy_12_of_62. exact Hl.
    + rewrite Hs. vm_compute. reflexivity.
  - destruct (generate_exact 4 (mkOptions false false true false) env)
      as [r [Hr [Hl Hs]]]; [reflexivity|].
    exists r. split; [exact Hr|]. split.
    + apply entropy_4_of_10. exact Hl.
    + rewrite Hs. vm_compute. reflexivity.
Qed.

End WorkedExamples.

(** ** Sampling *)

Section Sampling.








Lemma string_get_some_lt (s : string) (j : nat) (c : ascii) :
  String.get j s = Some c -> (j < String.length s)%nat.
Proof.
  revert j. induction s as [|a s IH]; intros j H; simpl in *.
  - destruct j; discriminate.
  - destruct j as [|j]; [lia|]. apply IH in H. lia.
Qed.

Lemma Zpos_of_nat (n : nat) :
  (0 < n)%nat -> Z.pos (Pos.of_nat n) = Z.of_nat n.
Proof.
  intros Hn. rewrite <- (Nat2Pos.id n) at 2 by lia.
  now rewrite positive_nat_Z.
Qed.

Lemma fraction_in_unit_interval (j n : nat) :
  (j < n)%nat -> in_unit_interval (Z.of_nat j # Pos.of_nat n) = true.
Proof.
  intros Hj. unfold in_unit_interval. apply andb_true_iff. split.
  - apply Qle_bool_iff. unfold Qle. simpl. lia.
  - apply negb_true_iff. apply not_true_iff_false. intros C.
    apply Qle_bool_iff in C. unfold Qle in C. simpl in C.
    rewrite Z.mul_1_r in C.
    pose proof (Zpos_of_nat n ltac:(lia)). lia.
Qed.

(** X3. Every character of the pool can be drawn: for the character at
    index [j] there is a value of the random source that picks it. *)
Theorem every_pool_character_is_drawn (pool : string) (j : nat) (c : ascii) :
  String.get j pool = Some c ->
  exists u, pick pool u = Some c.
Proof.
  intros Hget.
  pose proof (string_get_some_lt pool j c Hget) as Hj.
  exists (mkUnit _ (fraction_in_unit_interval j (String.length pool) Hj)).
  unfold pick. simpl value.
  assert (Hidx : Math_floor ((Z.of_nat j # Pos.of_nat (String.length pool))
                   * inject_Z (Z.of_nat (String.length pool))) = Z.of_nat j).
  { unfold Math_floor.
    transitivity (Qfloor (inject_Z (Z.of_nat j))); [|apply Qfloor_Z].
    apply Qfloor_comp. unfold Qeq, Qmult, inject_Z.
    cbn [Qnum Qden]. rewrite Pos.mul_1_r.
    rewrite (Zpos_of_nat (String.length pool)) by lia. ring. }
  rewrite Hidx. unfold string_index.
  destruct (Z.ltb_spec (Z.of_nat j) 0) as [C|_]; [lia|].
  now rewrite Nat2Z.id.
Qed.

Lemma every_pool_character_is_drawn_witness :
  exists u, pick (CHARSETS Symbols) u = Some "?"%char.
Proof.
  apply (every_pool_character_is_drawn (CHARSETS Symbols) 20 "?"%char).
  reflexivity.
Defined.

End Sampling.

(** ** Labels and edge cases of the generator *)

Section Labels.

Lemma pool_size_bounds (options : Options) :
  is_empty (build_pool options) = false ->
  (10 <= String.length (build_pool options) <= 83)%nat.
Proof.
  destruct options as [[] [] [] []]; simpl; intros H;
    try discriminate; lia.
Qed.

Lemma evaluateStrength_exact_label (len poolSize : nat) :
  StrengthLabel (evaluateStrength_exact len poolSize).
Proof.
  unfold evaluateStrength_exact, StrengthLabel. cbv zeta.
  destruct (_ <? 2 ^ 40)%Z; [now left|].
  destruct (_ <? 2 ^ 60)%Z; [right; now left | right; now right].
Qed.

Lemma string_length_zero (s : string) : String.length s = 0%nat -> s = "".
Proof. destruct s; [reflexivity | discriminate]. Qed.

Lemma not_all_false_enabled (options : Options) :
  ~ all_false options -> is_empty (build_pool options) = false.
Proof.
  intros H. destruct (is_empty (build_pool options)) eqn:E; [|reflexivity].
  apply build_pool_empty in E. contradiction.
Qed.

(** Few characters are Weak over every pool of the component, many are
    Strong. *)
Lemma exact_short_is_weak (len poolSize : nat) :
  (len <= 6)%nat -> (poolSize <= 83)%nat ->
  evaluateStrength_exact len poolSize = "Weak".
Proof.
  intros Hl Hp. unfold evaluateStrength_exact. cbv zeta.
  assert (H : (Z.of_nat poolSize ^ Z.of_nat len < 2 ^ 40)%Z).
  { destruct (Nat.eq_dec poolSize 0) as [->|Hnz].
    - destruct len; [reflexivity|].
      rewrite Z.pow_0_l by lia. reflexivity.
    - apply Z.le_lt_trans with (83 ^ 6)%Z; [|reflexivity].
      apply Z.le_trans with (83 ^ Z.of_nat len)%Z.
      + apply Z.pow_le_mono_l. lia.
      + apply Z.pow_le_mono_r; lia. }
  apply Z.ltb_lt in H. now rewrite H.
Qed.

Lemma exact_long_is_strong (len poolSize : nat) :
  (19 <= len)%nat -> (10 <= poolSize)%nat ->
  evaluateStrength_exact len poolSize = "Strong".
Proof.
  intros Hl Hp. unfold evaluateStrength_exact. cbv zeta.
  assert (H : (2 ^ 60 <= Z.of_nat poolSize ^ Z.of_nat len)%Z).
  { apply Z.le_trans with (10 ^ 19)%Z; [intros C; discriminate|].
    apply Z.le_trans with (10 ^ Z.of_nat len)%Z.
    - apply Z.pow_le_mono_r; lia.
    - apply Z.pow_le_mono_l. lia. }
  assert (H40 : (2 ^ 40 <= Z.of_nat poolSize ^ Z.of_nat len)%Z).
  { apply Z.le_trans with (2 ^ 60)%Z; [intros C; discriminate | exact H]. }
  apply Z.ltb_ge in H, H40. now rewrite H, H40.
Qed.



(** X5. The strength of a result is the empty string exactly when no option
    is enabled; otherwise it is one of Weak, Medium, Strong. *)
Theorem generate_strength_marks_failure (length : Z) (options : Options)
    (env : Env) :
  exists r,
    generatePasswordFromOptions length options env = Normal r /\
    (Generated.strength r = "" <-> all_false options) /\
    (Generated.strength r = "" \/ StrengthLabel (Generated.strength r)).
Proof.
  destruct (is_empty (build_pool options)) eqn:E.
  - pose proof (proj1 (build_pool_empty options) E) as Hf.
    rewrite (generate_all_false length options env Hf).
    eexists. split; [reflexivity|]. simpl.
    split; [tauto | now left].
  - destruct (generate_exact length options env E) as [r [Hr [_ Hs]]].
    exists r. split; [exact Hr|].
    pose proof (evaluateStrength_exact_label (Z.to_nat length)
                  (String.length (build_pool options))) as Hl.
    rewrite <- Hs in Hl. split; [|now right]. split.
    + intros C. rewrite C in Hl. destruct Hl as [H|[H|H]]; discriminate.
    + intros Hf. apply build_pool_empty in Hf. congruence.
Qed.

(** X6. The password of a result is empty exactly when no option is enabled
    or the requested length is zero or less. *)
Theorem generate_empty_password (length : Z) (options : Options)
    (env : Env) :
  exists r,
    generatePasswordFromOptions length options env = Normal r /\
    (Generated.password r = "" <-> all_false options \/ (length <= 0)%Z).
Proof.
  destruct (is_empty (build_pool options)) eqn:E.
  - pose proof (proj1 (build_pool_empty options) E) as Hf.
    rewrite (generate_all_false length options env Hf).
    eexists. split; [reflexivity|]. simpl. tauto.
  - destruct (generate_exact length options env E) as [r [Hr [Hl _]]].
    exists r. split; [exact Hr|]. split.
    + intros C. rewrite C in Hl. simpl in Hl. right. lia.
    + intros [Hf|Hn].
      * apply build_pool_empty in Hf. congruence.
      * apply string_length_zero. rewrite Hl. lia.
Qed.

Lemma distinct_sound (l : list ascii) : distinct l = true -> NoDup l.
Proof.
  induction l as [|c l IH]; simpl; intros H; [constructor|].
  apply andb_true_iff in H. destruct H as [Hc Hl].
  constructor; [|now apply IH].
  intros Hin. apply negb_true_iff in Hc.
  assert (existsb (Ascii.eqb c) l = true).
  { apply existsb_exists. exists c. split; [exact Hin | apply Ascii.eqb_refl]. }
  congruence.
Qed.

(** X7. Whatever the options, no character occurs twice in the pool, and a
    pool that is not empty has between 10 and 83 characters. *)
Theorem pool_has_no_duplicates (options : Options) :
  NoDup (chars (build_pool options)) /\
  (String.length (build_pool options) <= 83)%nat /\
  (all_false options \/ (10 <= String.length (build_pool options))%nat).
Proof.
  split; [|split].
  - apply distinct_sound.
    destruct options as [[] [] [] []]; vm_compute; reflexivity.
  - destruct options as [[] [] [] []]; simpl; lia.
  - destruct (is_empty (build_pool options)) eqn:E.
    + left. now apply build_pool_empty.
    + right. now apply pool_size_bounds.
Qed.

(** X8. With an option enabled the length alone decides the label at both
    ends: up to 6 characters are Weak and 19 or more are Strong, whatever
    the options. Neither bound can be moved: 7 characters over all four
    charsets and 18 digits are both Medium. *)
Theorem length_alone_decides (length : Z) (options : Options) (env : Env) :
  (exists key, option_get options key = true) ->
  (exists r,
     generatePasswordFromOptions length options env = Normal r /\
     ((length <= 6)%Z -> Generated.strength r = "Weak") /\
     ((19 <= length)%Z -> Generated.strength r = "Strong")) /\
  (exists r,
     generatePasswordFromOptions 7 (mkOptions true true true true) env
       = Normal r /\ Generated.strength r = "Medium") /\
  (exists r,
     generatePasswordFromOptions 18 (mkOptions false false true false) env
       = Normal r /\ Generated.strength r = "Medium").
Proof.
  intros Hen. apply enabled_pool_not_empty in Hen.
  pose proof (pool_size_bounds options Hen) as Hp.
  split; [|split].
  - destruct (generate_exact length options env Hen) as [r [Hr [_ Hs]]].
    exists r. split; [exact Hr|]. rewrite Hs. split; intros H.
    + apply exact_short_is_weak; lia.
    + apply exact_long_is_strong; lia.
  - destruct (generate_exact 7 (mkOptions true true true true) env)
      as [r [Hr [_ Hs]]]; [reflexivity|].
    exists r. split; [exact Hr|]. rewrite Hs. vm_compute. reflexivity.
  - destruct (generate_exact 18 (mkOptions false false true false) env)
      as [r [Hr [_ Hs]]]; [reflexivity|].
    exists r. split; [exact Hr|]. rewrite Hs. vm_compute. reflexivity.
Qed.

Lemma length_alone_decides_witness :
  exists r,
    generatePasswordFromOptions 4 (mkOptions true true true true) sample_env
      = Normal r /\
    Generated.strength r = "Weak".
Proof.
  destruct (length_alone_decides 4 (mkOptions true true true true) sample_env)
    as [[r [Hr [Hweak _]]] _].
  - exists Symbols. reflexivity.
  - exists r. split; [exact Hr|]. apply Hweak. lia.
Defined.

End Labels.

(** ** Order of the labels *)

Section Monotone.

Local Open Scope R_scope.

Lemma ln_monotone (x y : R) : 0 < x -> x <= y -> ln x <= ln y.
Proof.
  intros Hx [Hlt | ->]; [|apply Rle_refl].
  left. now apply ln_increasing.
Qed.

Lemma log2_monotone (x y : R) : 1 <= x -> x <= y -> 0 <= log2 x <= log2 y.
Proof.
  intros Hx Hxy. pose proof ln2_pos as H2. unfold log2.
  assert (H0 : 0 <= ln x) by (rewrite <- ln_1; apply ln_monotone; lra).
  assert (H1 : ln x <= ln y) by (apply ln_monotone; lra).
  split.
  - apply Rmult_le_pos; [exact H0 | left; now apply Rinv_0_lt_compat].
  - apply Rmult_le_compat_r; [left; now apply Rinv_0_lt_compat | exact H1].
Qed.

Lemma entropy_monotone (pw1 pw2 : string) (p q : R) :
  1 <= p -> p <= q ->
  (String.length pw1 <= String.length pw2)%nat ->
  entropy pw1 p <= entropy pw2 q.
Proof.
  intros Hp Hpq Hlen. unfold entropy.
  destruct (log2_monotone p q Hp Hpq) as [H0 H1].
  apply Rmult_le_compat; [apply pos_INR | exact H0 | now apply le_INR | exact H1].
Qed.

(** X9. The label never goes down when the password gets longer or the pool
    larger: for pool sizes [1 <= p <= q] and passwords with
    [length pw1 <= length pw2], the label of [pw1] over [p] ranks at most
    that of [pw2] over [q] in the order Weak, Medium, Strong. *)
Theorem evaluateStrength_monotone (pw1 pw2 : string) (p q : R) :
  1 <= p -> p <= q ->
  (String.length pw1 <= String.length pw2)%nat ->
  (strength_rank (evaluateStrength pw1 p)
   <= strength_rank (evaluateStrength pw2 q))%nat.
Proof.
  intros Hp Hpq Hlen.
  pose proof (entropy_monotone pw1 pw2 p q Hp Hpq Hlen) as He.
  unfold evaluateStrength. fold (entropy pw1 p). fold (entropy pw2 q).
  cbv zeta.
  destruct (Rlt_dec (entropy pw1 p) 40);
    destruct (Rlt_dec (entropy pw2 q) 40);
    destruct (Rlt_dec (entropy pw1 p) 60);
    destruct (Rlt_dec (entropy pw2 q) 60);
    try (exfalso; lra); cbn; lia.
Qed.

Lemma evaluateStrength_monotone_witness :
  (strength_rank (evaluateStrength "abcdefgh" 32)
   <= strength_rank (evaluateStrength "abcdefghij" 64))%nat.
Proof.
  apply (evaluateStrength_monotone "abcdefgh" "abcdefghij" 32 64).
  - lra.
  - lra.
  - simpl. lia.
Defined.

End Monotone.

(** ** History items *)

Section Items.

Lemma to_int_not_nil (z : Z) :
  Z.to_int z <> Decimal.Pos Decimal.Nil /\
  Z.to_int z <> Decimal.Neg Decimal.Nil.
Proof.
  destruct z as [|p|p]; simpl; split; try discriminate;
    intros C; injection C as C;
    revert C; apply DecimalPos.Unsigned.to_uint_nonnil.
Qed.

Lemma toString_injective (a b : Z) : toString a = toString b -> a = b.
Proof.
  unfold toString. intros H.
  destruct (to_int_not_nil a) as [Ha1 Ha2].
  destruct (to_int_not_nil b) as [Hb1 Hb2].
  pose proof (NilZero.isi (Z.to_int a) Ha1 Ha2) as Ia.
  pose proof (NilZero.isi (Z.to_int b) Hb1 Hb2) as Ib.
  rewrite H, Ib in Ia. injection Ia as Ia.
  rewrite <- (DecimalZ.of_to a), <- (DecimalZ.of_to b). now rewrite Ia.
Qed.

(** X10. The [id] of a history item is the decimal form of [Date.now()]:
    two items have the same [id] exactly when they were created in the
    same millisecond, whatever their passwords. *)
Theorem item_ids_follow_the_clock (pwd1 str1 pwd2 str2 : string)
    (rt1 rt2 : Q) (env1 env2 : Env) :
  HistoryItem.id (newItem pwd1 str1 rt1 env1)
    = HistoryItem.id (newItem pwd2 str2 rt2 env2)
  <-> Date_now env1 = Date_now env2.
Proof.
  simpl. split; [apply toString_injective | now intros ->].
Qed.


End Items.

(** ** The component as a whole *)

Section Component.

(** The state that a generation event leaves, field by field. *)
Lemma handle_effect (g : Generation) (env : Env) (st : State.t) :
  exists r,
    generatePasswordFromOptions (requested_length g st)
      (requested_options g st) env = Normal r /\
    handle g env st
      = Normal (State.mk (requested_length g st) (requested_options g st)
                  (Generated.password r) (Generated.strength r)
                  (State.copied st)
                  (firstn 20
                     (newItem (Generated.password r) (Generated.strength r)
                        (Generated.responseTime r) env :: State.history st))
                  (State.showHistory st)).
Proof.
  destruct (generate_total (requested_length g st)
              (requested_options g st) env) as [r Hr].
  exists r. split; [exact Hr|].
  destruct st as [len opts pwd str cp hist sh].
  destruct g; simpl in Hr; simpl handle;
    unfold mountEffect, generatePassword, toggleOption, handleLengthChange;
    cbv zeta; simpl State.length; simpl State.options;
    rewrite Hr; reflexivity.
Qed.

Lemma Forall_firstn {A : Type} (P : A -> Prop) (n : nat) (l : list A) :
  Forall P l -> Forall P (firstn n l).
Proof.
  revert n. induction l as [|x l IH]; intros n H.
  - now rewrite firstn_nil.
  - destruct n; [constructor|]. inversion H; subst.
    rewrite firstn_cons. constructor; [assumption | now apply IH].
Qed.

Lemma pool_within_all_options (options : Options) (c : ascii) :
  In c (chars (build_pool options)) -> In c (chars (build_pool all_options)).
Proof.
  intros H. apply pool_char_enabled in H. destruct H as [key [_ Hc]].
  unfold all_options, build_pool. simpl upper. simpl lower. simpl numbers.
  simpl symbols. cbv zeta iota.
  rewrite !chars_append. rewrite !in_app_iff.
  destruct key; tauto.
Qed.

(** The item recorded for a generator result is well formed. *)
Lemma generated_item_well_formed (length : Z) (options : Options)
    (env : Env) (r : Generated.t) :
  generatePasswordFromOptions length options env = Normal r ->
  item_well_formed (newItem (Generated.password r) (Generated.strength r)
                      (Generated.responseTime r) env).
Proof.
  intros Hr. destruct (is_empty (build_pool options)) eqn:E.
  - apply build_pool_empty in E.
    rewrite (generate_all_false length options env E) in Hr.
    injection Hr as <-. left. simpl. repeat split; reflexivity.
  - right. rewrite (generate_enabled length options env E) in Hr.
    cbv zeta in Hr. injection Hr as <-. simpl. split.
    + rewrite evaluateStrength_exact_spec
        by (apply is_empty_length in E; lia).
      apply evaluateStrength_exact_label.
    + intros c Hc. apply (pool_within_all_options options).
      destruct (sample_loop_spec (build_pool options) (random env)
                  (Z.to_nat length) 0 "" E) as [_ Hm].
      apply Hm; [intros d []|exact Hc].
Qed.

Lemma dispatch_keeps_invariant (e : Event) (st : State.t) :
  component_invariant st ->
  exists st', dispatch e st = Normal st' /\ component_invariant st'.
Proof.
  intros [Hcap [Hhead Hall]].
  destruct e as [g env| | |text written|].
  - destruct (handle_effect g env st) as [r [Hr Hst]].
    eexists. split; [exact Hst|]. unfold component_invariant.
    cbn [State.history]. split; [|split].
    + rewrite length_firstn. lia.
    + unfold history_head_agrees. cbn [State.history].
      rewrite firstn_cons. split; reflexivity.
    + apply Forall_firstn. constructor; [|exact Hall].
      exact (generated_item_well_formed _ _ env r Hr).
  - eexists. split; [reflexivity|]. unfold component_invariant.
    simpl. split; [lia|]. split; [exact I | constructor].
  - eexists. split; [reflexivity|].
    destruct st; split; [|split]; assumption.
  - eexists. split; [reflexivity|].
    destruct st, written; split; [|split| |split]; assumption.
  - eexists. split; [reflexivity|].
    destruct st; split; [|split]; assumption.
Qed.

Lemma run_keeps_invariant (events : list Event) (st : State.t) :
  component_invariant st ->
  exists st', run events st = Normal st' /\ component_invariant st'.
Proof.
  revert st. induction events as [|e events IH]; intros st Hinv.
  - exists st. split; [reflexivity | exact Hinv].
  - destruct (dispatch_keeps_invariant e st Hinv) as [st1 [H1 Hinv1]].
    destruct (IH st1 Hinv1) as [st2 [H2 Hinv2]].
    exists st2. split; [|exact Hinv2]. simpl. now rewrite H1.
Qed.


(** X13. Every item that the history of the component ever holds is well
    formed: either the record of a failed generation (empty password,
    empty strength, response time 0) or a password made of charset
    characters with one of the labels Weak, Medium, Strong. *)
Theorem history_items_well_formed (events : list Event) :
  exists st,
    run events State.initial = Normal st /\
    Forall item_well_formed (State.history st).
Proof.
  destruct (run_keeps_invariant events State.initial) as [st [Hrun Hinv]].
  - split; [simpl; lia|]. split; [exact I | constructor].
  - exists st. split; [exact Hrun | apply Hinv].
Qed.






(** X15. After any number of generation events from an empty history, the
    history holds the items created, newest first, cut to the newest 20:
    it has [min n 20] items after [n] events. *)
Theorem history_is_the_newest_items (events : list (Generation * Env))
    (st : State.t) :
  State.history st = [] ->
  exists st' items,
    generations events st = Normal st' /\
    generatedItems events st = map Normal items /\
    State.history st' = firstn 20 (rev items) /\
    List.length (State.history st')
      = Nat.min (List.length events) 20.
Proof.
  intros Hempty.
  destruct (generations_history events st)
    as [st' [items [Hrun [Hitems [Hlen Hh]]]]].
  { rewrite Hempty. simpl. lia. }
  rewrite Hempty, app_nil_r in Hh.
  exists st', items. repeat split; try assumption.
  rewrite Hh, length_firstn, length_rev, Hlen. lia.
Qed.

Lemma history_is_the_newest_items_witness :
  exists st' items,
    generations [ (Mounted, sample_env); (Toggled Lower, sample_env);
                  (Regenerated, sample_env) ] State.initial = Normal st' /\
    generatedItems [ (Mounted, sample_env); (Toggled Lower, sample_env);
                     (Regenerated, sample_env) ] State.initial
      = map Normal items /\
    State.history st' = firstn 20 (rev items) /\
    List.length (State.history st') = Nat.min 3 20.
Proof.
  apply (history_is_the_newest_items
           [ (Mounted, sample_env); (Toggled Lower, sample_env);
             (Regenerated, sample_env) ] State.initial).
  reflexivity.
Defined.



End Component.

(** ** What a result depends on *)

Section Dependence.

Lemma pick_value (pool : string) (u1 u2 : UnitInterval) :
  (value u1 == value u2)%Q -> pick pool u1 = pick pool u2.
Proof.
  intros H. unfold pick, Math_floor. f_equal.
  apply Qfloor_comp. now rewrite H.
Qed.

Lemma sample_loop_draws (pool : string) (rnd1 rnd2 : nat -> UnitInterval)
    (n i : nat) (result : string) :
  (forall j, (j < n)%nat ->
     (value (rnd1 (i + j)%nat) == value (rnd2 (i + j)%nat))%Q) ->
  sample_loop pool rnd1 i n result = sample_loop pool rnd2 i n result.
Proof.
  revert i result. induction n as [|n IH]; intros i result H; simpl;
    [reflexivity|].
  rewrite (pick_value pool (rnd1 i) (rnd2 i)).
  - apply IH. intros j Hj.
    replace (S i + j)%nat with (i + S j)%nat by lia. apply H. lia.
  - rewrite <- (Nat.add_0_r i). apply H. lia.
Qed.

(** X17. The strength of a result depends on the length and the options
    only: two generations with the same length and options get the same
    label, whatever the random source and the clocks give. *)
Theorem strength_ignores_environment (length : Z) (options : Options)
    (env1 env2 : Env) :
  exists r1 r2,
    generatePasswordFromOptions length options env1 = Normal r1 /\
    generatePasswordFromOptions length options env2 = Normal r2 /\
    Generated.strength r1 = Generated.strength r2.
Proof.
  destruct (is_empty (build_pool options)) eqn:E.
  - apply build_pool_empty in E.
    rewrite !(generate_all_false length options _ E).
    eexists. eexists. repeat split.
  - destruct (generate_exact length options env1 E) as [r1 [H1 [_ Hs1]]].
    destruct (generate_exact length options env2 E) as [r2 [H2 [_ Hs2]]].
    exists r1, r2. repeat split; try assumption. congruence.
Qed.

(** X18. The password depends on the environment through the first
    [length] values of the random source only: two environments that agree
    on them give the same password and the same strength, whatever their
    clocks and their later random values. *)
Theorem password_follows_the_first_draws (length : Z) (options : Options)
    (env1 env2 : Env) :
  (forall j, (j < Z.to_nat length)%nat ->
     (value (random env1 j) == value (random env2 j))%Q) ->
  exists r1 r2,
    generatePasswordFromOptions length options env1 = Normal r1 /\
    generatePasswordFromOptions length options env2 = Normal r2 /\
    Generated.password r1 = Generated.password r2 /\
    Generated.strength r1 = Generated.strength r2.
Proof.
  intros H. unfold generatePasswordFromOptions. cbv zeta.
  destruct (is_empty (build_pool options)).
  - eexists. eexists. repeat split.
  - eexists. eexists. split; [reflexivity|]. split; [reflexivity|].
    simpl.
    rewrite (sample_loop_draws (build_pool options) (random env1)
               (random env2) (Z.to_nat length) 0 "" H).
    split; reflexivity.
Qed.

Lemma password_follows_the_first_draws_witness :
  exists r1 r2,
    generatePasswordFromOptions 6 (State.options State.initial) sample_env
      = Normal r1 /\
    generatePasswordFromOptions 6 (State.options State.initial)
      (mkEnv (fun i => nth i sample_draws (mkUnit (1 # 7) eq_refl))
         (5 # 1) (9 # 1) 42 "00:00:01") = Normal r2 /\
    Generated.password r1 = Generated.password r2 /\
    Generated.strength r1 = Generated.strength r2.
Proof.
  apply (password_follows_the_first_draws 6 (State.options State.initial)
           sample_env
           (mkEnv (fun i => nth i sample_draws (mkUnit (1 # 7) eq_refl))
              (5 # 1) (9 # 1) 42 "00:00:01")).
  intros j Hj.
  do 6 (destruct j as [|j]; [reflexivity|]).
  simpl in Hj. lia.
Defined.

(** X19. For a pool of [p >= 1] characters the label is a comparison of
    integers: a password of [n] characters is Weak when [p ^ n < 2 ^ 40],
    Strong when [p ^ n >= 2 ^ 60], and Medium in between. *)
Theorem strength_compares_powers (pw : string) (p : nat) :
  (1 <= p)%nat ->
  let combinations := (Z.of_nat p ^ Z.of_nat (String.length pw))%Z in
  (evaluateStrength pw (INR p) = "Weak" <-> (combinations < 2 ^ 40)%Z) /\
  (evaluateStrength pw (INR p) = "Medium" <->
     (2 ^ 40 <= combinations < 2 ^ 60)%Z) /\
  (evaluateStrength pw (INR p) = "Strong" <-> (2 ^ 60 <= combinations)%Z).
Proof.
  intros Hp combinations.
  rewrite (evaluateStrength_exact_spec pw p Hp).
  unfold evaluateStrength_exact. fold combinations. cbv zeta.
  destruct (Z.ltb_spec combinations (2 ^ 40)) as [L|L];
    [|destruct (Z.ltb_spec combinations (2 ^ 60)) as [M|M]];
    repeat split; intros; try reflexivity; try discriminate; try lia.
Qed.

Lemma strength_compares_powers_witness :
  evaluateStrength "abcdefghijkl" (INR 62) = "Strong".
Proof.
  apply (strength_compares_powers "abcdefghijkl" 62); [lia|].
  vm_compute. discriminate.
Defined.

End Dependence.
